(** * ECF bndtools.grpc: the health-check servicer and the protoc wrapper

    A shallow embedding of the two Python scripts of the repository,

    - [run_grpc_server.py]: the class [HealthCheckServicer] and its one
      method [Check];
    - [grpc_protoc.py]: the function [add_to_python_path] and the body of
      the [__main__] block,

    and the properties of them that the specification states.  Python
    objects that the code mutates in place (the response message, the list
    [sys.path]) live in a store and are handled through references. *)

From Stdlib Require Import ZArith Ascii String.
From stdpp Require Import gmap strings list.

(** Identities of Python objects. *)
Abbreviation loc := positive.

(* ===================================================================== *)
(** ** run_grpc_server.py *)
(* ===================================================================== *)

Module RunGrpcServer.

(** Modelled from the spec: the generated module [health.health_pb2] is not
    among the sources.  Its messages are the request and response "pair of
    single-string fields each" plus the status of the response; the only
    status the code names is [SERVING], the others are those of the gRPC
    health-checking protocol, whose zero value [UNKNOWN] is the default of
    a fresh message. *)
Inductive ServingStatus := UNKNOWN | SERVING | NOT_SERVING | SERVICE_UNKNOWN.

(** Some of what an attribute read may yield at run time (Python checks
    the operands of [+] only when it runs): a string, which is what a
    request message carries, and two values that are none. *)
Inductive pyval :=
  | PyStr (s : string)
  | PyInt (n : Z)
  | PyNone.

Record HealthCheckRequest := { request_message : pyval }.

Record HealthCheckResponse :=
  { status : ServingStatus; response_message : string }.

(** The objects a call of [Check] can meet: messages, and objects it never
    looks into (the servicer itself, the RPC context). *)
Inductive pyobj :=
  | Request (r : HealthCheckRequest)
  | Response (r : HealthCheckResponse)
  | Opaque.

Inductive pyexn := TypeError | AttributeError.

Inductive outcome (A : Type) :=
  | Ok (a : A) (h : gmap loc pyobj)
  | Raise (e : pyexn).
Arguments Ok {A} a h.
Arguments Raise {A} e.

(** Store-passing computations that may raise. *)
Definition Rpc (A : Type) : Type := gmap loc pyobj → outcome A.

Definition rpc_ret {A} (a : A) : Rpc A := λ h, Ok a h.
Definition rpc_raise {A} (e : pyexn) : Rpc A := λ _, Raise e.
Definition rpc_bind {A B} (m : Rpc A) (k : A → Rpc B) : Rpc B :=
  λ h, match m h with
       | Ok a h' => k a h'
       | Raise e => Raise e
       end.

#[global] Instance Rpc_MRet : MRet Rpc := @rpc_ret.
#[global] Instance Rpc_MBind : MBind Rpc := λ A B k m, rpc_bind m k.

(** [HealthCheckResponse()]: a new object, every field at its default. *)
Definition new_HealthCheckResponse : Rpc loc :=
  λ h, let l := fresh (dom h) in
       Ok l (<[l := Response {| status := UNKNOWN; response_message := "" |}]> h).

(** [HealthCheckResponse.SERVING], a constant of the class. *)
Definition HealthCheckResponse_SERVING : ServingStatus := SERVING.

(** [o.status = v] *)
Definition set_status (o : loc) (v : ServingStatus) : Rpc unit :=
  λ h, match h !! o with
       | Some (Response r) =>
           Ok tt (<[o := Response {| status := v;
                                     response_message := response_message r |}]> h)
       | _ => Raise AttributeError
       end.

(** [o.response_message = s] *)
Definition set_response_message (o : loc) (s : string) : Rpc unit :=
  λ h, match h !! o with
       | Some (Response r) =>
           Ok tt (<[o := Response {| status := status r;
                                     response_message := s |}]> h)
       | _ => Raise AttributeError
       end.

(** [o.request_message] *)
Definition get_request_message (o : loc) : Rpc pyval :=
  λ h, match h !! o with
       | Some (Request r) => Ok (request_message r) h
       | _ => Raise AttributeError
       end.

(** [s + v] with [s] a string literal: defined on strings only. *)
Definition str_add (s : string) (v : pyval) : Rpc string :=
  match v with
  | PyStr t => rpc_ret (s +:+ t)
  | _ => rpc_raise TypeError
  end.

(** [HealthCheckServicer.Check(self, request, target)] *)
Definition Check (self request target : loc) : Rpc loc :=
  result ← new_HealthCheckResponse;
  set_status result HealthCheckResponse_SERVING;;
  m ← get_request_message request;
  s ← str_add "Hello request_message=" m;
  set_response_message result s;;
  rpc_ret result.

(** The calls of [Check] that serve a sequence of requests, one call after
    the other on the same store; the references of the responses in the
    order of the requests. *)
Fixpoint Check_each (self target : loc) (requests : list loc)
    : Rpc (list loc) :=
  match requests with
  | [] => rpc_ret []
  | request :: rest =>
      result ← Check self request target;
      results ← Check_each self target rest;
      rpc_ret (result :: results)
  end.

(** The response that [Check] builds for the message [m]. *)
Definition greeting (m : string) : HealthCheckResponse :=
  {| status := SERVING;
     response_message := "Hello request_message=" +:+ m |}.

End RunGrpcServer.

(* ===================================================================== *)
(** ** What the wrapper uses of the Python runtime *)
(* ===================================================================== *)

(** The string methods [startswith] and slicing, and [os.path.abspath] as
    CPython's [posixpath] defines it, with [join] and [normpath] that it is
    made of.  The working directory, which [abspath] reads from the
    process, is a parameter. *)
Module PosixPath.

(** [s[n:]] *)
Fixpoint slice_from (n : nat) (s : string) : string :=
  match n, s with
  | O, _ => s
  | S _, EmptyString => EmptyString
  | S n', String _ s' => slice_from n' s'
  end.

(** [s.startswith(p)] *)
Definition startswith (p s : string) : bool := String.prefix p s.

(** The last character of a string, if it has one. *)
Fixpoint last_char (s : string) : option ascii :=
  match s with
  | EmptyString => None
  | String c s' =>
      match last_char s' with
      | None => Some c
      | Some d => Some d
      end
  end.

(** [s.endswith('/')] *)
Definition endswith_sep (s : string) : bool :=
  match last_char s with
  | Some c => Ascii.eqb c "/"
  | None => false
  end.

(** [s.split('/')]: the pieces between the separators, empty ones kept. *)
Fixpoint split (s : string) : list string :=
  match s with
  | EmptyString => [EmptyString]
  | String c s' =>
      if Ascii.eqb c "/" then EmptyString :: split s'
      else match split s' with
           | w :: ws => String c w :: ws
           | [] => [String c EmptyString]
           end
  end.

(** [isabs(s)] *)
Definition isabs (s : string) : bool := startswith "/" s.

(** [join(a, b)] *)
Definition join (a b : string) : string :=
  if startswith "/" b then b
  else if String.eqb a "" || endswith_sep a then a +:+ b
  else a +:+ "/" +:+ b.

(** The number of leading slashes that [normpath] keeps: POSIX allows one
    or two, three or more count as one. *)
Definition initial_slashes (path : string) : nat :=
  if startswith "/" path then
    if startswith "//" path && negb (startswith "///" path) then 2 else 1
  else 0.

(** One turn of the loop of [normpath] over the components. *)
Definition normpath_step (slashes : nat) (new_comps : list string)
    (comp : string) : list string :=
  if String.eqb comp "" || String.eqb comp "." then new_comps
  else if negb (String.eqb comp "..")
          || (Nat.eqb slashes 0 && bool_decide (new_comps = []))
          || (negb (bool_decide (new_comps = []))
              && bool_decide (last new_comps = Some ".."))
  then new_comps ++ [comp]
  else if negb (bool_decide (new_comps = [])) then removelast new_comps
  else new_comps.

Definition slashes_string (n : nat) : string :=
  match n with
  | 0 => ""
  | 1 => "/"
  | _ => "//"
  end.

(** [normpath(path)] *)
Definition normpath (path : string) : string :=
  if String.eqb path "" then "."
  else
    let slashes := initial_slashes path in
    let comps := fold_left (normpath_step slashes) (split path) [] in
    let path' := slashes_string slashes +:+ String.concat "/" comps in
    if String.eqb path' "" then "." else path'.

(** [abspath(path)], in a process whose working directory is [cwd]. *)
Definition abspath (cwd : string) (path : string) : string :=
  normpath (if isabs path then path else join cwd path).

(** A component as [normpath] keeps them: it has no separator in it and is
    none of the names that the loop drops or resolves. *)
Definition component (c : string) : Prop :=
  split c = [c] ∧ c ≠ "" ∧ c ≠ "." ∧ c ≠ "..".

(** Two spellings of one directory. *)
Definition same_directory (cwd a b : string) : Prop :=
  abspath cwd a = abspath cwd b.

#[global] Instance same_directory_dec cwd a b : Decision (same_directory cwd a b).
Proof. unfold same_directory. apply _. Defined.

End PosixPath.

(* ===================================================================== *)
(** ** grpc_protoc.py *)
(* ===================================================================== *)

Module GrpcProtoc.

(** The part of the interpreter's state that the script touches: the list
    objects, the object that [sys.path] is bound to, and [sys.argv], which
    the script only reads. *)
Record pystate := {
  heap : gmap loc (list string);
  sys_path : loc;
  sys_argv : list string
}.

(** State-passing computations; [None] is a reference to no object, which
    Python rules out. *)
Definition Py (A : Type) : Type := pystate → option (A * pystate).

Definition py_ret {A} (a : A) : Py A := λ st, Some (a, st).
Definition py_bind {A B} (m : Py A) (k : A → Py B) : Py B :=
  λ st, match m st with
        | Some (a, st') => k a st'
        | None => None
        end.

#[global] Instance Py_MRet : MRet Py := @py_ret.
#[global] Instance Py_MBind : MBind Py := λ A B k m, py_bind m k.

(** [sys.path], the reference *)
Definition get_sys_path : Py loc := λ st, Some (sys_path st, st).

(** [sys.argv] *)
Definition get_sys_argv : Py (list string) := λ st, Some (sys_argv st, st).

(** The entries of a list object. *)
Definition entries (l : loc) : Py (list string) :=
  λ st, match heap st !! l with
        | Some v => Some (v, st)
        | None => None
        end.

(** The state in which the object [l] holds the entries [v]. *)
Definition store (l : loc) (v : list string) (st : pystate) : pystate :=
  {| heap := <[l := v]> (heap st);
     sys_path := sys_path st;
     sys_argv := sys_argv st |}.

(** [l.append(x)]: the object changes, its identity does not. *)
Definition append (l : loc) (x : string) : Py unit :=
  λ st, match heap st !! l with
        | Some v => Some (tt, store l (v ++ [x]) st)
        | None => None
        end.

(** [for x in xs: body] *)
Fixpoint for_each {A} (xs : list A) (body : A → Py unit) : Py unit :=
  match xs with
  | [] => py_ret tt
  | x :: xs' => body x;; for_each xs' body
  end.

(** How a call of the compiler entry point ends: with the value it returns,
    or with an exception, which nothing in the script catches.  What the
    exit status of the process is in that case is the interpreter's and the
    platform's business (what the platform keeps of the code of a
    [SystemExit], the status for an error, for an interrupt); [status] is
    that status. *)
Inductive call_result :=
  | Returns (v : Z)
  | Raises (status : Z).

(** The exit status of the interpreter after the last statement of a
    script: 0 when the statement completes, and the status that goes with
    the exception when it raises. *)
Definition status_after (r : call_result) : Z :=
  match r with
  | Returns _ => 0
  | Raises status => status
  end.

(** What is seen of a run of the script. *)
Record run := {
  protoc_args : list string;
  state_at_call : pystate;
  exit_status : Z
}.

Section Script.

(** [os.path.abspath] in the process that runs the script. *)
Variable abspath : string → string.

(** [grpc_tools.protoc.main]: from its argument and the state it is called
    in to the way the call ends. *)
Variable protoc_main : list string → pystate → call_result.

(** [add_to_python_path(new_path)] *)
Definition add_to_python_path (new_path : string) : Py loc :=
  existing_path ← get_sys_path;
  let absolute_path := abspath new_path in
  present ← entries existing_path;
  (if bool_decide (absolute_path ∈ present) then py_ret tt
   else path ← get_sys_path; append path absolute_path);;
  get_sys_path.

(** The body of the loop of the [__main__] block. *)
Definition scan_item (item : string) : Py unit :=
  if PosixPath.startswith "-I" item
  then add_to_python_path (PosixPath.slice_from 2 item);; py_ret tt
  else py_ret tt.

(** The [__main__] block up to the call of [protoc.main]: the argument that
    the call receives. *)
Definition main_before_call : Py (list string) :=
  argv ← get_sys_argv;
  for_each argv scan_item;;
  argv' ← get_sys_argv;
  py_ret (drop 1 argv').

(** The [__main__] block. *)
Definition main (st : pystate) : option run :=
  match main_before_call st with
  | Some (args, st') =>
      Some {| protoc_args := args;
              state_at_call := st';
              exit_status := status_after (protoc_main args st') |}
  | None => None
  end.

End Script.

(** The entries of [sys.path] in a state. *)
Definition search_path (st : pystate) : option (list string) :=
  heap st !! sys_path st.

(** How often [x] occurs in a list. *)
Definition occurrences (x : string) (l : list string) : nat :=
  length (filter (λ e, e = x) l).

(** What [add_to_python_path] makes of the entries of [sys.path]. *)
Definition with_path (a : string) (path : list string) : list string :=
  if bool_decide (a ∈ path) then path else path ++ [a].

(** What the loop of the [__main__] block makes of them. *)
Definition scanned (abspath : string → string) (argv path : list string)
    : list string :=
  fold_left
    (λ acc item,
       if PosixPath.startswith "-I" item
       then with_path (abspath (PosixPath.slice_from 2 item)) acc
       else acc)
    argv path.

End GrpcProtoc.

(* ===================================================================== *)
(** ** Sample states *)
(* ===================================================================== *)

Module Samples.

(** A store with a servicer, a context and one request. *)
Definition store_of (m : RunGrpcServer.pyval) : gmap loc RunGrpcServer.pyobj :=
  <[3%positive := RunGrpcServer.Request {| RunGrpcServer.request_message := m |}]>
    (<[2%positive := RunGrpcServer.Opaque]> (<[1%positive := RunGrpcServer.Opaque]> ∅)).

(** A store with a servicer, a context and two requests. *)
Definition store_of_two (m1 m2 : RunGrpcServer.pyval)
    : gmap loc RunGrpcServer.pyobj :=
  <[4%positive := RunGrpcServer.Request {| RunGrpcServer.request_message := m2 |}]>
    (store_of m1).

(** The working directory of the sample runs of the wrapper. *)
Definition cwd : string := "/home/u".

(** A state of the wrapper: [sys.path] is object 1, object 2 is a list
    that has nothing to do with it. *)
Definition state_of (path argv : list string) : GrpcProtoc.pystate :=
  {| GrpcProtoc.heap := <[2%positive := ["unrelated"]]> {[1%positive := path]};
     GrpcProtoc.sys_path := 1%positive;
     GrpcProtoc.sys_argv := argv |}.

(** A compiler that fails with status 1. *)
Definition failing_protoc (args : list string) (st : GrpcProtoc.pystate)
    : GrpcProtoc.call_result :=
  GrpcProtoc.Returns 1.

End Samples.

(* ===================================================================== *)
(** ** Properties of [HealthCheckServicer.Check] *)
(* ===================================================================== *)

Section CheckProperties.

Import RunGrpcServer.

Example Check_ping :
  Check 1 3 2 (Samples.store_of (PyStr "ping"))
  = Ok 4%positive
       (<[4%positive := Response {| status := SERVING;
             response_message := "Hello request_message=ping" |}]>
          (Samples.store_of (PyStr "ping"))).
Proof. vm_compute. reflexivity. Qed.

Example Check_not_a_string :
  Check 1 3 2 (Samples.store_of PyNone) = Raise TypeError.
Proof. vm_compute. reflexivity. Qed.

Lemma fresh_not_allocated (h : gmap loc pyobj) : h !! fresh (dom h) = None.
Proof. apply not_elem_of_dom, is_fresh. Qed.

(** The run of [Check] on a request that carries a string, step by step. *)
Lemma Check_run (h : gmap loc pyobj) (self request target : loc) (m : string) :
  h !! request = Some (Request {| request_message := PyStr m |}) →
  Check self request target h
  = Ok (fresh (dom h))
       (<[fresh (dom h) :=
            Response {| status := SERVING;
                        response_message := "Hello request_message=" +:+ m |}]> h).
Proof.
  intros Hreq.
  assert (Hne : fresh (dom h) ≠ request).
  { intros E. rewrite <- E, fresh_not_allocated in Hreq. discriminate. }
  unfold Check, mbind, Rpc_MBind, rpc_bind, new_HealthCheckResponse, set_status.
  rewrite lookup_insert_eq. cbn.
  unfold get_request_message.
  rewrite insert_insert_eq, lookup_insert_ne, Hreq by exact Hne. cbn.
  unfold set_response_message.
  rewrite lookup_insert_eq, insert_insert_eq. reflexivity.
Qed.

(** C1.  For a request whose [request_message] is a string [m], [Check]
    returns a response whose status is [SERVING] and whose
    [response_message] is ["Hello request_message="] followed by [m]. *)
Theorem Check_serving_greeting (h : gmap loc pyobj)
    (self request target : loc) (m : string) :
  h !! request = Some (Request {| request_message := PyStr m |}) →
  ∃ result h',
    Check self request target h = Ok result h'
    ∧ h' !! result
      = Some (Response {| status := SERVING;
                          response_message := "Hello request_message=" +:+ m |}).
Proof.
  intros Hreq. eexists _, _. split.
  - by apply Check_run.
  - apply lookup_insert_eq.
Qed.

Lemma Check_serving_greeting_ping :
  Samples.store_of (PyStr "ping") !! 3%positive
  = Some (Request {| request_message := PyStr "ping" |})
  ∧ ∃ result h',
      Check 1 3 2 (Samples.store_of (PyStr "ping")) = Ok result h'
      ∧ h' !! result
        = Some (Response {| status := SERVING;
              response_message := "Hello request_message=ping" |}).
Proof.
  split; [reflexivity|].
  apply (Check_serving_greeting (Samples.store_of (PyStr "ping")) 1 3 2 "ping").
  reflexivity.
Defined.

(** C7.  On a request that carries a string, [Check] completes: it raises
    nothing, and all it does to the store is to allocate the response it
    returns; every object that was there is as it was. *)
Theorem Check_cannot_fail (h : gmap loc pyobj)
    (self request target : loc) (m : string) :
  h !! request = Some (Request {| request_message := PyStr m |}) →
  ∃ result h',
    Check self request target h = Ok result h'
    ∧ (∀ e, Check self request target h ≠ Raise e)
    ∧ h !! result = None
    ∧ ∀ l, l ≠ result → h' !! l = h !! l.
Proof.
  intros Hreq. eexists _, _. rewrite (Check_run _ _ _ _ _ Hreq).
  split; [reflexivity|]. split; [discriminate|].
  split; [apply fresh_not_allocated|].
  intros l Hl. by apply lookup_insert_ne.
Qed.

Lemma Check_cannot_fail_ping :
  Samples.store_of (PyStr "ping") !! 3%positive
  = Some (Request {| request_message := PyStr "ping" |})
  ∧ ∃ result h',
      Check 1 3 2 (Samples.store_of (PyStr "ping")) = Ok result h'
      ∧ (∀ e, Check 1 3 2 (Samples.store_of (PyStr "ping")) ≠ Raise e)
      ∧ Samples.store_of (PyStr "ping") !! result = None
      ∧ ∀ l, l ≠ result → h' !! l = Samples.store_of (PyStr "ping") !! l.
Proof.
  split; [reflexivity|].
  apply (Check_cannot_fail (Samples.store_of (PyStr "ping")) 1 3 2 "ping").
  reflexivity.
Defined.

End CheckProperties.

(* ===================================================================== *)
(** ** Properties of the wrapper, whatever [abspath] and the compiler do *)
(* ===================================================================== *)

Section WrapperProperties.

Import GrpcProtoc.

(** *** States *)

Lemma store_same (st : pystate) (path : list string) :
  search_path st = Some path → store (sys_path st) path st = st.
Proof.
  unfold search_path, store. intros H. destruct st as [h p a]; cbn in *.
  f_equal. by apply insert_id.
Qed.

Lemma search_path_store (st : pystate) (v : list string) :
  search_path (store (sys_path st) v st) = Some v.
Proof. unfold search_path, store; cbn. apply lookup_insert_eq. Qed.

Lemma store_store (st : pystate) (v w : list string) :
  store (sys_path st) w (store (sys_path st) v st) = store (sys_path st) w st.
Proof. unfold store; cbn. f_equal. apply insert_insert_eq. Qed.

(** *** The include marker *)

Lemma startswith_marker (P : string) :
  PosixPath.startswith "-I" ("-I" +:+ P) = true.
Proof. by destruct P. Qed.

Lemma slice_after_marker (P : string) :
  PosixPath.slice_from 2 ("-I" +:+ P) = P.
Proof. reflexivity. Qed.

Lemma startswith_marker_inv (item : string) :
  PosixPath.startswith "-I" item = true →
  item = "-I" +:+ PosixPath.slice_from 2 item.
Proof.
  unfold PosixPath.startswith. intros H.
  destruct item as [|a item]; [discriminate|]. cbn [String.prefix] in H.
  destruct (ascii_dec "-" a) as [<-|]; [|discriminate].
  destruct item as [|b item]; [discriminate|]. cbn [String.prefix] in H.
  destruct (ascii_dec "I" b) as [<-|]; [|discriminate]. reflexivity.
Qed.

(** *** Counting entries *)

Lemma occurrences_app (x : string) (l k : list string) :
  occurrences x (l ++ k) = occurrences x l + occurrences x k.
Proof. unfold occurrences. by rewrite filter_app, length_app. Qed.

Lemma occurrences_pos (x : string) (l : list string) :
  x ∈ l ↔ 0 < occurrences x l.
Proof.
  unfold occurrences. induction l as [|y l IH].
  - cbn. split; [by intros ?%elem_of_nil | lia].
  - rewrite elem_of_cons, filter_cons. case_decide as Hy; cbn.
    + subst y. split; [lia | by left].
    + rewrite IH. split; [intros [->|?]; [done|lia] | by right].
Qed.

Lemma occurrences_with_path (a : string) (path : list string) :
  occurrences a (with_path a path) = Nat.max 1 (occurrences a path).
Proof.
  unfold with_path. case_bool_decide as Hin.
  - apply occurrences_pos in Hin. lia.
  - rewrite occurrences_app.
    assert (occurrences a path = 0) as ->.
    { destruct (occurrences a path) eqn:E; [done|].
      exfalso. apply Hin, occurrences_pos. lia. }
    unfold occurrences. rewrite filter_cons. by case_decide.
Qed.

Lemma with_path_elem (a : string) (path : list string) :
  a ∈ with_path a path.
Proof. unfold with_path. case_bool_decide; set_solver. Qed.

Lemma with_path_again (a : string) (path : list string) :
  with_path a (with_path a path) = with_path a path.
Proof.
  unfold with_path at 1. by rewrite bool_decide_eq_true_2 by apply with_path_elem.
Qed.

(** *** The runs of the script *)

(** [os.path.abspath] and [grpc_tools.protoc.main] are whatever the
    platform has. *)
Variable abspath : string → string.
Variable protoc_main : list string → pystate → call_result.

#[local] Set Default Proof Using "Type".

(** [add_to_python_path] as a function of the entries of [sys.path]. *)
Lemma add_to_python_path_run (new_path : string) (st : pystate)
    (path : list string) :
  search_path st = Some path →
  add_to_python_path abspath new_path st
  = Some (sys_path st,
          store (sys_path st) (with_path (abspath new_path) path) st).
Proof.
  intros Hp. pose proof Hp as Hp'. unfold search_path in Hp.
  unfold add_to_python_path, with_path, mbind, Py_MBind, py_bind,
    get_sys_path, entries, append.
  rewrite Hp. case_bool_decide; cbn.
  - by rewrite store_same.
  - by rewrite Hp.
Qed.

(** One turn of the loop. *)
Lemma scan_item_run (item : string) (st : pystate) (path : list string) :
  search_path st = Some path →
  scan_item abspath item st
  = Some (tt, store (sys_path st) (scanned abspath [item] path) st).
Proof.
  intros Hp. unfold scan_item, scanned; cbn.
  destruct (PosixPath.startswith "-I" item).
  - unfold mbind, Py_MBind, py_bind.
    by rewrite (add_to_python_path_run _ _ _ Hp).
  - cbn. by rewrite store_same.
Qed.

(** The whole loop. *)
Lemma for_each_scan_run (argv : list string) (st : pystate)
    (path : list string) :
  search_path st = Some path →
  for_each argv (scan_item abspath) st
  = Some (tt, store (sys_path st) (scanned abspath argv path) st).
Proof.
  revert st path. induction argv as [|item argv IH]; intros st path Hp.
  - cbn. by rewrite store_same.
  - cbn [for_each]. unfold mbind, Py_MBind, py_bind.
    rewrite (scan_item_run _ _ _ Hp).
    rewrite (IH _ _ (search_path_store _ _)).
    cbn [sys_path store]. by rewrite store_store.
Qed.

(** The script up to the call of the compiler. *)
Lemma main_before_call_run (st : pystate) (path : list string) :
  search_path st = Some path →
  main_before_call abspath st
  = Some (drop 1 (sys_argv st),
          store (sys_path st) (scanned abspath (sys_argv st) path) st).
Proof.
  intros Hp. unfold main_before_call, mbind, Py_MBind, py_bind, get_sys_argv.
  by rewrite (for_each_scan_run _ _ _ Hp).
Qed.

(** The script never fails, and its run is this one. *)
Lemma main_run (st : pystate) (path : list string) :
  search_path st = Some path →
  let st' := store (sys_path st) (scanned abspath (sys_argv st) path) st in
  main abspath protoc_main st
  = Some {| protoc_args := drop 1 (sys_argv st);
            state_at_call := st';
            exit_status := status_after (protoc_main (drop 1 (sys_argv st)) st') |}.
Proof.
  intros Hp. unfold main. by rewrite (main_before_call_run _ _ Hp).
Qed.

(** Without a marker in [argv], the loop adds nothing. *)
Lemma scanned_no_marker (argv path : list string) :
  Forall (λ item, PosixPath.startswith "-I" item = false) argv →
  scanned abspath argv path = path.
Proof.
  unfold scanned. induction 1 as [|item argv Hitem _ IH]; cbn; [done|].
  by rewrite Hitem.
Qed.

(** What the loop adds comes from the marked arguments, each in its
    absolute form, and goes to the end of the list. *)
Lemma scanned_adds_absolute (argv path : list string) :
  ∃ added,
    scanned abspath argv path = path ++ added
    ∧ ∀ e, e ∈ added → ∃ P, "-I" +:+ P ∈ argv ∧ e = abspath P.
Proof.
  unfold scanned. revert path.
  induction argv as [|item argv IH]; intros path; cbn [fold_left].
  - exists []. split; [by rewrite app_nil_r|]. by intros e ?%elem_of_nil.
  - destruct (PosixPath.startswith "-I" item) eqn:Hitem.
    + pose proof (startswith_marker_inv item Hitem) as Hshape.
      set (a := abspath (PosixPath.slice_from 2 item)).
      destruct (IH (with_path a path)) as (added & -> & Hadded).
      unfold with_path. case_bool_decide.
      * exists added. split; [done|]. intros e [P [HP ->]]%Hadded.
        exists P. split; [by right|done].
      * exists (a :: added). split; [by rewrite <- app_assoc|].
        intros e [->|[P [HP ->]]%Hadded]%elem_of_cons.
        -- exists (PosixPath.slice_from 2 item).
           split; [rewrite <- Hshape; by left|done].
        -- exists P. split; [by right|done].
    + destruct (IH path) as (added & -> & Hadded).
      exists added. split; [done|]. intros e [P [HP ->]]%Hadded.
      exists P. split; [by right|done].
Qed.

(** The loop keeps a list without repetitions free of them: no path is
    added twice. *)
Lemma scanned_NoDup (argv path : list string) :
  NoDup path → NoDup (scanned abspath argv path).
Proof.
  unfold scanned. revert path.
  induction argv as [|item argv IH]; intros path Hpath; cbn [fold_left];
    [done|].
  apply IH. destruct (PosixPath.startswith "-I" item); [|done].
  unfold with_path. case_bool_decide; [done|].
  apply NoDup_app. split; [done|]. split; [|apply NoDup_singleton].
  by intros e He ->%list_elem_of_singleton.
Qed.

(** X5.  [sys.path] when the compiler is called: the entries it had, in
    their order, then entries that are each the absolute form of a marked
    argument; a list without repetitions stays without them. *)
Corollary main_search_path (st : pystate) (path : list string) :
  search_path st = Some path →
  ∃ r added,
    main abspath protoc_main st = Some r
    ∧ search_path (state_at_call r) = Some (path ++ added)
    ∧ (∀ e, e ∈ added → ∃ P, "-I" +:+ P ∈ sys_argv st ∧ e = abspath P)
    ∧ (NoDup path → NoDup (path ++ added)).
Proof.
  intros Hp.
  destruct (scanned_adds_absolute (sys_argv st) path) as (added & E & Hadded).
  eexists _, added. split; [by apply main_run|].
  cbn [state_at_call]. rewrite search_path_store, E.
  split; [done|]. split; [done|].
  intros Hnd. rewrite <- E. by apply scanned_NoDup.
Qed.

(** *** The claims *)

(** C2, as amended.  After the loop over the arguments the script passes
    [sys.argv[1:]], the arguments as given without the program name, to the
    compiler entry point, and does nothing with the value that comes back:
    whenever the call returns, the exit status is 0, whatever the call
    returned. *)
Theorem main_forwards_and_discards (st : pystate) (path : list string) :
  search_path st = Some path →
  ∃ r, main abspath protoc_main st = Some r
       ∧ protoc_args r = drop 1 (sys_argv st)
       ∧ ∀ v, protoc_main (protoc_args r) (state_at_call r) = Returns v →
              exit_status r = 0%Z.
Proof.
  intros Hp. eexists. split; [by apply main_run|]. cbn.
  split; [done|]. by intros v ->.
Qed.

(** C3, as amended.  The second of two calls of [add_to_python_path] with
    the same argument changes nothing, and after them the absolute form of
    the argument occurs in [sys.path] once if it occurred at most once
    before, and as often as before otherwise. *)
Theorem add_to_python_path_twice (new_path : string) (st : pystate)
    (path : list string) :
  search_path st = Some path →
  ∃ st1 path1,
    add_to_python_path abspath new_path st = Some (sys_path st, st1)
    ∧ add_to_python_path abspath new_path st1 = Some (sys_path st1, st1)
    ∧ search_path st1 = Some path1
    ∧ occurrences (abspath new_path) path1
      = Nat.max 1 (occurrences (abspath new_path) path).
Proof.
  intros Hp. eexists _, _. split; [by apply add_to_python_path_run|].
  split; [|split; [apply search_path_store|apply occurrences_with_path]].
  rewrite (add_to_python_path_run _ _ _ (search_path_store _ _)).
  cbn [sys_path store]. by rewrite store_store, with_path_again.
Qed.

(** C4, as amended.  When no entry of [sys.argv], the program name
    [sys.argv[0]] included, starts with ["-I"], the script reaches the call
    of the compiler in the state it started in, [sys.path] included, and
    the compiler receives the arguments as they were given. *)
Theorem main_without_marker (st : pystate) (path : list string) :
  search_path st = Some path →
  Forall (λ item, PosixPath.startswith "-I" item = false) (sys_argv st) →
  ∃ r, main abspath protoc_main st = Some r
       ∧ state_at_call r = st
       ∧ search_path (state_at_call r) = Some path
       ∧ protoc_args r = drop 1 (sys_argv st).
Proof.
  intros Hp Hno. eexists. split; [by apply main_run|].
  cbn [state_at_call protoc_args].
  rewrite (scanned_no_marker _ _ Hno), (store_same _ _ Hp). done.
Qed.

(** C5.  Whatever the arguments are, with or without ["-I"], the compiler
    receives exactly the arguments that follow the program name, in their
    order, and [sys.argv] itself is as it was. *)
Theorem main_forwards_verbatim (st : pystate) (path : list string)
    (prog : string) (args : list string) :
  search_path st = Some path →
  sys_argv st = prog :: args →
  ∃ r, main abspath protoc_main st = Some r
       ∧ protoc_args r = args
       ∧ sys_argv (state_at_call r) = prog :: args.
Proof.
  intros Hp Hargv. eexists. split; [by apply main_run|]. cbn.
  by rewrite Hargv.
Qed.

(** C6.  For an argument ["-I"] followed by [P], the turn of the loop calls
    [add_to_python_path] on [P], and what [sys.path] gains, if it gains
    anything, is the absolute form of [P] at its end; [P] as it was written
    is never what is added. *)
Theorem scan_item_adds_absolute (P : string) (st : pystate)
    (path : list string) :
  search_path st = Some path →
  ∃ st' path',
    scan_item abspath ("-I" +:+ P) st = Some (tt, st')
    ∧ search_path st' = Some path'
    ∧ (abspath P ∈ path → path' = path)
    ∧ (abspath P ∉ path → path' = path ++ [abspath P])
    ∧ abspath P ∈ path'.
Proof.
  intros Hp. eexists _, _. split; [by apply scan_item_run|].
  split; [apply search_path_store|].
  unfold scanned; cbn [fold_left].
  rewrite startswith_marker, slice_after_marker. unfold with_path.
  clear protoc_main. case_bool_decide; set_solver.
Qed.

(** C9.  A call of [add_to_python_path] returns the object that [sys.path]
    is bound to, before and after; that object holds its former entries in
    their order, followed by nothing or by the absolute form of the
    argument; no other object changes, nor does [sys.argv]. *)
Theorem add_to_python_path_frame (new_path : string) (st : pystate)
    (path : list string) :
  search_path st = Some path →
  ∃ r st' added,
    add_to_python_path abspath new_path st = Some (r, st')
    ∧ r = sys_path st ∧ sys_path st' = sys_path st
    ∧ heap st' !! r = Some (path ++ added)
    ∧ (added = [] ∨ added = [abspath new_path])
    ∧ (∀ l, l ≠ sys_path st → heap st' !! l = heap st !! l)
    ∧ sys_argv st' = sys_argv st.
Proof.
  intros Hp.
  exists (sys_path st),
    (store (sys_path st) (with_path (abspath new_path) path) st),
    (if bool_decide (abspath new_path ∈ path) then [] else [abspath new_path]).
  split; [by apply add_to_python_path_run|].
  split; [done|]. split; [done|]. split.
  { cbn. rewrite lookup_insert_eq. unfold with_path.
    case_bool_decide; by rewrite ?app_nil_r. }
  split; [case_bool_decide; auto|]. split; [|done].
  intros l Hl. cbn. by apply lookup_insert_ne.
Qed.

End WrapperProperties.

(* ===================================================================== *)
(** ** Properties of the path functions *)
(* ===================================================================== *)

Section PathProperties.

Import PosixPath.

Lemma append_cons (c : ascii) (s t : string) :
  String c s +:+ t = String c (s +:+ t).
Proof. reflexivity. Qed.

Lemma append_empty_r (s : string) : s +:+ "" = s.
Proof. induction s as [|c s IH]; [done|]. by rewrite append_cons, IH. Qed.

Lemma split_nonempty (s : string) : split s ≠ [].
Proof.
  destruct s as [|c s]; cbn; [done|].
  destruct (Ascii.eqb c "/"); [done|]. by destruct (split s).
Qed.

Lemma split_cons_sep (s : string) : split (String "/" s) = "" :: split s.
Proof. reflexivity. Qed.

Lemma split_cons_other (c : ascii) (s : string) :
  Ascii.eqb c "/" = false →
  ∃ w ws, split s = w :: ws ∧ split (String c s) = String c w :: ws.
Proof.
  intros Hc. cbn. rewrite Hc.
  destruct (split s) as [|w ws] eqn:E; [by apply split_nonempty in E|].
  by exists w, ws.
Qed.

(** Splitting is compatible with joining two strings by a separator. *)
Lemma split_append_sep (a s : string) :
  split (a +:+ "/" +:+ s) = split a ++ split s.
Proof.
  induction a as [|c a IH].
  - reflexivity.
  - rewrite append_cons. destruct (Ascii.eqb c "/") eqn:Hc.
    + apply Ascii.eqb_eq in Hc as ->.
      by rewrite !split_cons_sep, IH.
    + destruct (split_cons_other c a Hc) as (w & ws & Ea & ->).
      destruct (split_cons_other c (a +:+ "/" +:+ s) Hc) as (w' & ws' & Eas & ->).
      rewrite IH, Ea in Eas. cbn in Eas. by injection Eas as <- <-.
Qed.

(** The pieces of a split have no separator left in them. *)
Lemma split_pieces (s : string) : Forall (λ w, split w = [w]) (split s).
Proof.
  induction s as [|c s IH].
  - by repeat constructor.
  - destruct (Ascii.eqb c "/") eqn:Hc.
    + apply Ascii.eqb_eq in Hc as ->. rewrite split_cons_sep.
      by constructor.
    + destruct (split_cons_other c s Hc) as (w & ws & Es & ->).
      rewrite Es in IH. apply Forall_cons in IH as [Hw Hws].
      constructor; [|done].
      destruct (split_cons_other c w Hc) as (w' & ws' & Ew & ->).
      rewrite Hw in Ew. by injection Ew as <- <-.
Qed.

Lemma split_concat (comps : list string) :
  comps ≠ [] →
  Forall (λ w, split w = [w]) comps →
  split (String.concat "/" comps) = comps.
Proof.
  induction comps as [|c comps IH]; [done|]. intros _ Hall.
  apply Forall_cons in Hall as [Hc Hall].
  destruct comps as [|c' comps]; [exact Hc|].
  change (String.concat "/" (c :: c' :: comps))
    with (c +:+ "/" +:+ String.concat "/" (c' :: comps)).
  by rewrite split_append_sep, Hc, IH.
Qed.

(** *** The loop of [normpath] *)

Lemma component_piece (c : string) : component c → split c = [c].
Proof. by intros [? _]. Qed.

Lemma component_head (c : string) :
  component c → ∃ a c', c = String a c' ∧ a ≠ "/"%char.
Proof.
  intros (Hsplit & Hne & _). destruct c as [|a c']; [done|].
  exists a, c'. split; [done|]. intros ->.
  rewrite split_cons_sep in Hsplit. discriminate.
Qed.

Lemma normpath_step_component (k : nat) (acc : list string) (c : string) :
  component c → normpath_step k acc c = acc ++ [c].
Proof.
  intros (_ & H1 & H2 & H3). unfold normpath_step.
  apply String.eqb_neq in H1, H2, H3. by rewrite H1, H2, H3.
Qed.

Lemma fold_components (k : nat) (l acc : list string) :
  Forall component l → fold_left (normpath_step k) l acc = acc ++ l.
Proof.
  intros Hl. revert acc. induction Hl as [|c l Hc _ IH]; intros acc; cbn.
  - by rewrite app_nil_r.
  - by rewrite normpath_step_component, IH, <- app_assoc.
Qed.

Lemma Forall_removelast {A} (P : A → Prop) (l : list A) :
  Forall P l → Forall P (removelast l).
Proof.
  induction 1 as [|x l Hx Hl IH]; cbn; [constructor|].
  destruct l; [constructor|]. by constructor.
Qed.

Lemma last_component (acc : list string) :
  Forall component acc → last acc ≠ Some "..".
Proof.
  intros Hacc Hlast. apply last_Some in Hlast as [l' ->].
  apply Forall_app in Hacc as [_ Hacc].
  apply Forall_cons in Hacc as [(_ & _ & _ & Hc) _]. done.
Qed.

(** Below a root the loop keeps nothing but components. *)
Lemma normpath_step_rooted (k : nat) (acc : list string) (comp : string) :
  k ≠ 0 → Forall component acc → split comp = [comp] →
  Forall component (normpath_step k acc comp).
Proof.
  intros Hk Hacc Hcomp. unfold normpath_step.
  destruct (String.eqb comp "") eqn:E1; [done|].
  destruct (String.eqb comp ".") eqn:E2; [done|]. cbn.
  destruct (String.eqb comp "..") eqn:E3; cbn.
  - apply Nat.eqb_neq in Hk. rewrite Hk. cbn.
    rewrite (bool_decide_eq_false_2 (last acc = Some ".."))
      by by apply last_component.
    rewrite andb_false_r.
    destruct (negb _); [by apply Forall_removelast|done].
  - apply Forall_app. split; [done|]. constructor; [|done].
    apply String.eqb_neq in E1, E2, E3. done.
Qed.

Lemma fold_rooted (k : nat) (l acc : list string) :
  k ≠ 0 → Forall component acc → Forall (λ w, split w = [w]) l →
  Forall component (fold_left (normpath_step k) l acc).
Proof.
  intros Hk Hacc Hl. revert acc Hacc.
  induction Hl as [|c l Hc _ IH]; intros acc Hacc; cbn; [done|].
  by apply IH, normpath_step_rooted.
Qed.

(** *** Leading slashes *)

Lemma startswith_empty (s : string) : startswith "" s = true.
Proof. by destruct s. Qed.

Lemma startswith_sep_cons (p : string) (c : ascii) (s : string) :
  startswith (String "/" p) (String c s)
  = Ascii.eqb c "/" && startswith p s.
Proof.
  unfold startswith.
  change (String.prefix (String "/" p) (String c s))
    with (if ascii_dec "/" c then String.prefix p s else false).
  destruct (ascii_dec "/" c) as [<-|Hne]; [done|].
  by rewrite (proj2 (Ascii.eqb_neq c "/")).
Qed.

Lemma isabs_cons (s : string) :
  isabs s = true → ∃ s', s = String "/" s'.
Proof.
  unfold isabs. destruct s as [|c s]; [done|].
  rewrite startswith_sep_cons. intros [Hc _]%andb_true_iff.
  apply Ascii.eqb_eq in Hc as ->. by exists s.
Qed.

Lemma initial_slashes_isabs (s : string) :
  isabs s = true → initial_slashes s = 1 ∨ initial_slashes s = 2.
Proof.
  unfold initial_slashes, isabs. intros ->.
  destruct (_ && _); auto.
Qed.

Lemma concat_components_head (comps : list string) :
  Forall component comps → startswith "/" (String.concat "/" comps) = false.
Proof.
  destruct 1 as [|c comps Hc _]; [done|].
  destruct (component_head c Hc) as (a & c' & -> & Ha).
  assert (∃ t, String.concat "/" (String a c' :: comps) = String a t)
    as [t ->] by (destruct comps; eauto).
  rewrite startswith_sep_cons. by rewrite (proj2 (Ascii.eqb_neq a "/")).
Qed.

Lemma initial_slashes_normal (k : nat) (comps : list string) :
  k = 1 ∨ k = 2 → Forall component comps →
  initial_slashes (slashes_string k +:+ String.concat "/" comps) = k.
Proof.
  intros Hk Hcomps. apply concat_components_head in Hcomps.
  unfold initial_slashes.
  destruct Hk as [-> | ->]; cbn [slashes_string]; rewrite !append_cons;
    change ("" +:+ ?t) with t;
    rewrite !startswith_sep_cons, ?Hcomps, ?startswith_empty; done.
Qed.

(** *** What [normpath] returns for an absolute path, and what it does to it *)

Lemma normpath_normal (k : nat) (comps : list string) :
  k = 1 ∨ k = 2 → Forall component comps →
  normpath (slashes_string k +:+ String.concat "/" comps)
  = slashes_string k +:+ String.concat "/" comps.
Proof.
  intros Hk Hcomps. unfold normpath.
  rewrite (initial_slashes_normal _ _ Hk Hcomps).
  assert (fold_left (normpath_step k)
            (split (slashes_string k +:+ String.concat "/" comps)) [] = comps)
    as ->.
  { assert (fold_left (normpath_step k) (split (String.concat "/" comps)) []
            = comps) as Hfold.
    { destruct comps as [|c comps']; [done|].
      rewrite split_concat; [|done|].
      - by rewrite fold_components.
      - eapply Forall_impl; [exact Hcomps|]. apply component_piece. }
    destruct Hk as [-> | ->]; cbn [slashes_string]; rewrite !append_cons;
      change ("" +:+ ?t) with t; by rewrite !split_cons_sep. }
  destruct Hk as [-> | ->]; reflexivity.
Qed.

Lemma normpath_isabs_shape (x : string) :
  isabs x = true →
  ∃ k comps, (k = 1 ∨ k = 2) ∧ Forall component comps
             ∧ normpath x = slashes_string k +:+ String.concat "/" comps.
Proof.
  intros Habs. pose proof (initial_slashes_isabs x Habs) as Hk.
  exists (initial_slashes x),
    (fold_left (normpath_step (initial_slashes x)) (split x) []).
  split; [done|]. split.
  { apply fold_rooted; [lia|constructor|apply split_pieces]. }
  unfold normpath. destruct (isabs_cons x Habs) as [x' ->].
  cbn [String.eqb]. cbv zeta.
  destruct Hk as [-> | ->]; reflexivity.
Qed.

(** On absolute paths [normpath] is idempotent, and leaves them absolute. *)
Lemma normpath_isabs (x : string) :
  isabs x = true →
  isabs (normpath x) = true ∧ normpath (normpath x) = normpath x.
Proof.
  intros (k & comps & Hk & Hcomps & ->)%normpath_isabs_shape. split.
  - unfold isabs.
    destruct Hk as [-> | ->]; cbn [slashes_string];
      by rewrite !append_cons, startswith_sep_cons, startswith_empty.
  - by apply normpath_normal.
Qed.

(** *** A separator at the end *)

Lemma endswith_sep_cons (c d : ascii) (s : string) :
  endswith_sep (String c (String d s)) = endswith_sep (String d s).
Proof.
  unfold endswith_sep. cbn [last_char]. by destruct (last_char s).
Qed.

Lemma initial_slashes_trailing_sep (s : string) :
  s ≠ "" → endswith_sep s = false →
  initial_slashes (s +:+ "/") = initial_slashes s.
Proof.
  destruct s as [|c s]; [done|]. intros _ He. unfold initial_slashes.
  rewrite append_cons, !startswith_sep_cons, !startswith_empty.
  destruct (Ascii.eqb c "/") eqn:Hc; [|done]. cbn [andb].
  apply Ascii.eqb_eq in Hc as ->.
  destruct s as [|d s]; [discriminate|]. rewrite endswith_sep_cons in He.
  rewrite append_cons, !startswith_sep_cons, !startswith_empty.
  destruct (Ascii.eqb d "/") eqn:Hd; [|done]. cbn [andb].
  apply Ascii.eqb_eq in Hd as ->.
  destruct s as [|e s]; [discriminate|].
  by rewrite append_cons, !startswith_sep_cons, !startswith_empty.
Qed.

Lemma normpath_trailing_sep (s : string) :
  s ≠ "" → endswith_sep s = false → normpath (s +:+ "/") = normpath s.
Proof.
  intros Hne He. unfold normpath.
  rewrite (initial_slashes_trailing_sep s Hne He).
  change (s +:+ "/") with (s +:+ "/" +:+ "").
  rewrite split_append_sep, fold_left_app.
  change (s +:+ "/" +:+ "") with (s +:+ "/").
  destruct s as [|c s]; [done|]. reflexivity.
Qed.

(** *** [join] and [abspath] *)

Lemma join_isabs (cwd p : string) :
  isabs cwd = true → isabs p = false → isabs (join cwd p) = true.
Proof.
  intros [cwd' ->]%isabs_cons Hp. unfold join, isabs in *. rewrite Hp.
  destruct (_ || _);
    by rewrite append_cons, startswith_sep_cons, startswith_empty.
Qed.

Lemma abspath_isabs (cwd p : string) :
  isabs cwd = true →
  isabs (abspath cwd p) = true
  ∧ abspath cwd (abspath cwd p) = abspath cwd p.
Proof.
  intros Hcwd. unfold abspath at 1 3.
  set (x := if isabs p then p else join cwd p).
  assert (isabs x = true) as Hx.
  { subst x. destruct (isabs p) eqn:Hp; [done|]. by apply join_isabs. }
  destruct (normpath_isabs x Hx) as [Habs Hidem]. split; [done|].
  unfold abspath. by rewrite Habs.
Qed.

(** The empty path is the working directory. *)
Lemma abspath_empty (cwd : string) :
  normpath cwd = cwd → abspath cwd "" = cwd.
Proof.
  intros Hcwd. unfold abspath, join. cbn [isabs startswith String.prefix].
  destruct (String.eqb cwd "") eqn:Hne; cbn [orb].
  { by rewrite append_empty_r. }
  destruct (endswith_sep cwd) eqn:He.
  { by rewrite append_empty_r. }
  change (cwd +:+ "/" +:+ "") with (cwd +:+ "/").
  apply String.eqb_neq in Hne. by rewrite normpath_trailing_sep.
Qed.

Example normpath_dots : normpath "/a/./b/../c//" = "/a/c".
Proof. reflexivity. Qed.

Example normpath_two_slashes : normpath "//a/../../b" = "//b".
Proof. reflexivity. Qed.

Example normpath_relative : normpath "a/../.." = "..".
Proof. reflexivity. Qed.

Example abspath_relative : abspath "/home/u" "foo/bar" = "/home/u/foo/bar".
Proof. reflexivity. Qed.

Example abspath_parent : abspath "/home/u" "../x" = "/home/x".
Proof. reflexivity. Qed.

End PathProperties.

(* ===================================================================== *)
(** ** The wrapper on POSIX paths *)
(* ===================================================================== *)

Section WrapperOnPosix.

Import PosixPath GrpcProtoc.

(** C10.  The membership test of [add_to_python_path] is on the absolute
    form alone: when [sys.path] holds an entry [q] that spells the directory
    of the argument in another way and not its absolute form, the absolute
    form is appended, and [sys.path] then has two entries for that
    directory. *)
Theorem other_spelling_added_again (cwd new_path q : string) (st : pystate)
    (path : list string) :
  isabs cwd = true →
  search_path st = Some path →
  q ∈ path →
  same_directory cwd q new_path →
  abspath cwd new_path ∉ path →
  ∃ st' path',
    add_to_python_path (abspath cwd) new_path st = Some (sys_path st, st')
    ∧ search_path st' = Some path'
    ∧ path' = path ++ [abspath cwd new_path]
    ∧ q ≠ abspath cwd new_path
    ∧ 2 ≤ length (filter (λ e, same_directory cwd e new_path) path').
Proof.
  intros Hcwd Hp Hq Hsame Hnew. eexists _, _.
  split; [by apply add_to_python_path_run|].
  split; [apply search_path_store|].
  unfold with_path. rewrite bool_decide_eq_false_2 by done.
  split; [done|]. split; [by intros ->|].
  rewrite filter_app, length_app.
  assert (0 < length (filter (λ e, same_directory cwd e new_path) path)).
  { destruct (filter _ path) as [|e l] eqn:E; [|cbn; lia].
    assert (q ∈ filter (λ e, same_directory cwd e new_path) path) as Hin
      by by apply list_elem_of_filter.
    rewrite E in Hin. by apply elem_of_nil in Hin. }
  rewrite filter_cons, decide_True; [cbn; lia|].
  apply (abspath_isabs cwd new_path Hcwd).
Qed.

Lemma other_spelling_added_again_sample :
  isabs Samples.cwd = true
  ∧ search_path (Samples.state_of ["/usr/lib/python3"; "lib"] ["grpc_protoc.py"])
    = Some ["/usr/lib/python3"; "lib"]
  ∧ "lib" ∈ ["/usr/lib/python3"; "lib"]
  ∧ same_directory Samples.cwd "lib" "./lib"
  ∧ (abspath Samples.cwd "./lib" ∉ ["/usr/lib/python3"; "lib"])
  ∧ ∃ st' path',
      add_to_python_path (abspath Samples.cwd) "./lib"
        (Samples.state_of ["/usr/lib/python3"; "lib"] ["grpc_protoc.py"])
      = Some (1%positive, st')
      ∧ search_path st' = Some path'
      ∧ path' = ["/usr/lib/python3"; "lib"] ++ [abspath Samples.cwd "./lib"]
      ∧ "lib" ≠ abspath Samples.cwd "./lib"
      ∧ 2 ≤ length (filter (λ e, same_directory Samples.cwd e "./lib") path').
Proof.
  assert (H1 : "lib" ∈ ["/usr/lib/python3"; "lib"])
    by (apply (bool_decide_unpack _); vm_compute; exact I).
  assert (H2 : abspath Samples.cwd "./lib" ∉ ["/usr/lib/python3"; "lib"])
    by (apply (bool_decide_unpack _); vm_compute; exact I).
  split; [reflexivity|]. split; [reflexivity|]. split; [exact H1|].
  split; [reflexivity|]. split; [exact H2|].
  exact (other_spelling_added_again Samples.cwd "./lib" "lib"
           (Samples.state_of ["/usr/lib/python3"; "lib"] ["grpc_protoc.py"])
           ["/usr/lib/python3"; "lib"] eq_refl eq_refl H1 eq_refl H2).
Defined.

(** *** Sample runs *)

(** The run of the specification: ["-Ifoo/bar"] puts the absolute form of
    [foo/bar] on [sys.path], and the compiler gets both arguments. *)
Example main_sample_run :
  main (abspath Samples.cwd) Samples.failing_protoc
    (Samples.state_of ["/usr/lib/python3"]
       ["grpc_protoc.py"; "-Ifoo/bar"; "a.proto"])
  = Some {| protoc_args := ["-Ifoo/bar"; "a.proto"];
            state_at_call :=
              store 1 ["/usr/lib/python3"; "/home/u/foo/bar"]
                (Samples.state_of ["/usr/lib/python3"]
                   ["grpc_protoc.py"; "-Ifoo/bar"; "a.proto"]);
            exit_status := 0 |}.
Proof. vm_compute. reflexivity. Qed.

Lemma main_forwards_and_discards_sample :
  search_path (Samples.state_of ["/usr/lib/python3"]
                 ["grpc_protoc.py"; "-Iproto"; "missing.proto"])
  = Some ["/usr/lib/python3"]
  ∧ ∃ r,
      main (abspath Samples.cwd) Samples.failing_protoc
        (Samples.state_of ["/usr/lib/python3"]
           ["grpc_protoc.py"; "-Iproto"; "missing.proto"])
      = Some r
      ∧ protoc_args r = drop 1 ["grpc_protoc.py"; "-Iproto"; "missing.proto"]
      ∧ ∀ v, Samples.failing_protoc (protoc_args r) (state_at_call r)
             = Returns v → exit_status r = 0%Z.
Proof.
  split; [reflexivity|].
  apply (main_forwards_and_discards (abspath Samples.cwd)
           Samples.failing_protoc
           (Samples.state_of ["/usr/lib/python3"]
              ["grpc_protoc.py"; "-Iproto"; "missing.proto"])
           ["/usr/lib/python3"]).
  reflexivity.
Defined.

(** C2, as stated, fails: the compiler is called, ends with status 1, and
    the wrapper ends with status 0. *)
Lemma failing_compiler_status_lost :
  ∃ r,
    main (abspath Samples.cwd) Samples.failing_protoc
      (Samples.state_of ["/usr/lib/python3"]
         ["grpc_protoc.py"; "-Iproto"; "missing.proto"])
    = Some r
    ∧ protoc_args r = ["-Iproto"; "missing.proto"]
    ∧ Samples.failing_protoc (protoc_args r) (state_at_call r) = Returns 1
    ∧ exit_status r = 0%Z
    ∧ exit_status r ≠ 1%Z.
Proof.
  eexists. split; [by apply (main_run _ _ _ ["/usr/lib/python3"])|].
  cbn. done.
Qed.

Lemma add_to_python_path_twice_sample :
  search_path (Samples.state_of ["/usr/lib/python3"] ["grpc_protoc.py"])
  = Some ["/usr/lib/python3"]
  ∧ ∃ st1 path1,
      add_to_python_path (abspath Samples.cwd) "lib"
        (Samples.state_of ["/usr/lib/python3"] ["grpc_protoc.py"])
      = Some (1%positive, st1)
      ∧ add_to_python_path (abspath Samples.cwd) "lib" st1
        = Some (sys_path st1, st1)
      ∧ search_path st1 = Some path1
      ∧ occurrences (abspath Samples.cwd "lib") path1
        = Nat.max 1 (occurrences (abspath Samples.cwd "lib")
                       ["/usr/lib/python3"]).
Proof.
  split; [reflexivity|].
  apply (add_to_python_path_twice (abspath Samples.cwd) "lib"
           (Samples.state_of ["/usr/lib/python3"] ["grpc_protoc.py"])
           ["/usr/lib/python3"]).
  reflexivity.
Defined.

(** C3, as stated, fails: a [sys.path] that holds the absolute form twice
    holds it twice after the two calls, not once. *)
Lemma add_to_python_path_twice_keeps_duplicates :
  ∃ st1 st2 path2,
    add_to_python_path (abspath Samples.cwd) "lib"
      (Samples.state_of ["/home/u/lib"; "/home/u/lib"] ["grpc_protoc.py"])
    = Some (1%positive, st1)
    ∧ add_to_python_path (abspath Samples.cwd) "lib" st1
      = Some (1%positive, st2)
    ∧ search_path st2 = Some path2
    ∧ occurrences (abspath Samples.cwd "lib") path2 = 2
    ∧ occurrences (abspath Samples.cwd "lib") path2 ≠ 1.
Proof.
  set (st := Samples.state_of ["/home/u/lib"; "/home/u/lib"] ["grpc_protoc.py"]).
  pose proof (add_to_python_path_run (abspath Samples.cwd) "lib" st
                ["/home/u/lib"; "/home/u/lib"] eq_refl) as Hrun.
  change (with_path _ _) with ["/home/u/lib"; "/home/u/lib"] in Hrun.
  rewrite (store_same st _ eq_refl) in Hrun.
  exists st, st, ["/home/u/lib"; "/home/u/lib"].
  split; [exact Hrun|]. split; [exact Hrun|].
  split; [reflexivity|]. by vm_compute.
Qed.

Lemma main_without_marker_sample :
  search_path (Samples.state_of ["/usr/lib/python3"]
                 ["grpc_protoc.py"; "--python_out=."; "a.proto"])
  = Some ["/usr/lib/python3"]
  ∧ Forall (λ item, startswith "-I" item = false)
      ["grpc_protoc.py"; "--python_out=."; "a.proto"]
  ∧ ∃ r,
      main (abspath Samples.cwd) Samples.failing_protoc
        (Samples.state_of ["/usr/lib/python3"]
           ["grpc_protoc.py"; "--python_out=."; "a.proto"])
      = Some r
      ∧ state_at_call r
        = Samples.state_of ["/usr/lib/python3"]
            ["grpc_protoc.py"; "--python_out=."; "a.proto"]
      ∧ search_path (state_at_call r) = Some ["/usr/lib/python3"]
      ∧ protoc_args r = drop 1 ["grpc_protoc.py"; "--python_out=."; "a.proto"].
Proof.
  assert (H : Forall (λ item, startswith "-I" item = false)
                ["grpc_protoc.py"; "--python_out=."; "a.proto"])
    by (repeat constructor).
  split; [reflexivity|]. split; [exact H|].
  exact (main_without_marker (abspath Samples.cwd) Samples.failing_protoc
           (Samples.state_of ["/usr/lib/python3"]
              ["grpc_protoc.py"; "--python_out=."; "a.proto"])
           ["/usr/lib/python3"] eq_refl H).
Defined.

(** C4, as stated, fails: none of the arguments that the compiler receives
    starts with ["-I"], the program name does, and [sys.path] has one entry
    more at the call than it had. *)
Lemma marked_program_name_changes_path :
  ∃ r,
    main (abspath Samples.cwd) Samples.failing_protoc
      (Samples.state_of ["/usr/lib/python3"]
         ["-Iq/grpc_protoc.py"; "a.proto"])
    = Some r
    ∧ protoc_args r = ["a.proto"]
    ∧ Forall (λ item, startswith "-I" item = false) (protoc_args r)
    ∧ search_path (state_at_call r)
      = Some ["/usr/lib/python3"; "/home/u/q/grpc_protoc.py"]
    ∧ search_path (state_at_call r)
      ≠ search_path (Samples.state_of ["/usr/lib/python3"]
                       ["-Iq/grpc_protoc.py"; "a.proto"]).
Proof.
  eexists. split; [by apply (main_run _ _ _ ["/usr/lib/python3"])|].
  cbn [protoc_args state_at_call]. rewrite search_path_store.
  split; [reflexivity|]. split; [by repeat constructor|].
  split; [reflexivity|]. discriminate.
Qed.

Lemma main_forwards_verbatim_sample :
  search_path (Samples.state_of ["/usr/lib/python3"]
                 ["grpc_protoc.py"; "-Ifoo/bar"; "a.proto"])
  = Some ["/usr/lib/python3"]
  ∧ ∃ r,
      main (abspath Samples.cwd) Samples.failing_protoc
        (Samples.state_of ["/usr/lib/python3"]
           ["grpc_protoc.py"; "-Ifoo/bar"; "a.proto"])
      = Some r
      ∧ protoc_args r = ["-Ifoo/bar"; "a.proto"]
      ∧ sys_argv (state_at_call r)
        = ["grpc_protoc.py"; "-Ifoo/bar"; "a.proto"].
Proof.
  split; [reflexivity|].
  exact (main_forwards_verbatim (abspath Samples.cwd) Samples.failing_protoc
           (Samples.state_of ["/usr/lib/python3"]
              ["grpc_protoc.py"; "-Ifoo/bar"; "a.proto"])
           ["/usr/lib/python3"] "grpc_protoc.py" ["-Ifoo/bar"; "a.proto"]
           eq_refl eq_refl).
Defined.

Lemma scan_item_adds_absolute_sample :
  search_path (Samples.state_of ["/usr/lib/python3"]
                 ["grpc_protoc.py"; "-Ifoo/bar"; "a.proto"])
  = Some ["/usr/lib/python3"]
  ∧ ∃ st' path',
      scan_item (abspath Samples.cwd) "-Ifoo/bar"
        (Samples.state_of ["/usr/lib/python3"]
           ["grpc_protoc.py"; "-Ifoo/bar"; "a.proto"])
      = Some (tt, st')
      ∧ search_path st' = Some path'
      ∧ ("/home/u/foo/bar" ∈ ["/usr/lib/python3"]
         → path' = ["/usr/lib/python3"])
      ∧ ("/home/u/foo/bar" ∉ ["/usr/lib/python3"]
         → path' = ["/usr/lib/python3"] ++ ["/home/u/foo/bar"])
      ∧ "/home/u/foo/bar" ∈ path'.
Proof.
  split; [reflexivity|].
  exact (scan_item_adds_absolute (abspath Samples.cwd) "foo/bar"
           (Samples.state_of ["/usr/lib/python3"]
              ["grpc_protoc.py"; "-Ifoo/bar"; "a.proto"])
           ["/usr/lib/python3"] eq_refl).
Defined.

Lemma add_to_python_path_frame_sample :
  search_path (Samples.state_of ["/usr/lib/python3"] ["grpc_protoc.py"])
  = Some ["/usr/lib/python3"]
  ∧ ∃ r st' added,
      add_to_python_path (abspath Samples.cwd) "foo/bar"
        (Samples.state_of ["/usr/lib/python3"] ["grpc_protoc.py"])
      = Some (r, st')
      ∧ r = 1%positive ∧ sys_path st' = 1%positive
      ∧ heap st' !! r = Some (["/usr/lib/python3"] ++ added)
      ∧ (added = [] ∨ added = ["/home/u/foo/bar"])
      ∧ (∀ l, l ≠ 1%positive →
              heap st' !! l
              = heap (Samples.state_of ["/usr/lib/python3"] ["grpc_protoc.py"])
                  !! l)
      ∧ sys_argv st' = ["grpc_protoc.py"].
Proof.
  split; [reflexivity|].
  exact (add_to_python_path_frame (abspath Samples.cwd) "foo/bar"
           (Samples.state_of ["/usr/lib/python3"] ["grpc_protoc.py"])
           ["/usr/lib/python3"] eq_refl).
Defined.

End WrapperOnPosix.

(* ===================================================================== *)
(** ** More on [Check]: calls in sequence, and the echo *)
(* ===================================================================== *)

Section CheckOutcomes.

Import RunGrpcServer.

(** X2.  Calls in sequence do not get in each other's way: when every
    request of the sequence carries a string, every call completes, the
    responses are new objects, all different, each with the greeting for
    its own request, and the objects that were in the store before,
    the requests among them, are unchanged. *)
Theorem Check_each_independent (h : gmap loc pyobj) (self target : loc)
    (requests : list loc) :
  Forall (λ request, ∃ m,
            h !! request = Some (Request {| request_message := PyStr m |}))
    requests →
  ∃ results h',
    Check_each self target requests h = Ok results h'
    ∧ NoDup results
    ∧ Forall (λ result, h !! result = None) results
    ∧ Forall2 (λ request result, ∃ m,
                 h !! request = Some (Request {| request_message := PyStr m |})
                 ∧ h' !! result = Some (Response (greeting m)))
        requests results
    ∧ ∀ l, is_Some (h !! l) → h' !! l = h !! l.
Proof.
  revert h. induction requests as [|request rest IH]; intros h Hall.
  - exists [], h. cbn. repeat split; try constructor; done.
  - apply Forall_cons in Hall as [[m Hreq] Hrest].
    set (f := fresh (dom h)).
    set (h1 := <[f := Response (greeting m)]> h).
    assert (Hf : h !! f = None) by apply fresh_not_allocated.
    assert (Hkeep : ∀ l, is_Some (h !! l) → h1 !! l = h !! l).
    { intros l [x Hx]. unfold h1. apply lookup_insert_ne.
      intros <-. rewrite Hf in Hx. discriminate. }
    destruct (IH h1) as (results & h' & Hrun & Hnd & Hnew & Hresp & Hold).
    { eapply Forall_impl; [exact Hrest|]. intros r [m' Hr].
      exists m'. by rewrite Hkeep. }
    exists (f :: results), h'. split.
    { cbn [Check_each]. unfold mbind, Rpc_MBind, rpc_bind.
      rewrite (Check_run _ _ _ _ _ Hreq). fold f. fold (greeting m). fold h1.
      by rewrite Hrun. }
    assert (Hf1 : h1 !! f = Some (Response (greeting m)))
      by apply lookup_insert_eq.
    split.
    { constructor; [|done]. intros Hin.
      rewrite Forall_forall in Hnew. specialize (Hnew f Hin). congruence. }
    split.
    { constructor; [done|]. eapply Forall_impl; [exact Hnew|].
      intros l Hl. destruct (decide (l = f)) as [->|Hne]; [done|].
      unfold h1 in Hl. by rewrite lookup_insert_ne in Hl. }
    split.
    { constructor.
      - exists m. split; [done|]. by rewrite Hold, Hf1.
      - eapply Forall2_impl; [exact Hresp|]. intros r res (m' & Hr & Hres).
        exists m'. split; [|done].
        destruct (decide (r = f)) as [->|Hne].
        + rewrite Hf1 in Hr. discriminate.
        + unfold h1 in Hr. by rewrite lookup_insert_ne in Hr. }
    intros l Hl. rewrite Hold; [by apply Hkeep|]. by rewrite Hkeep.
Qed.

Lemma Check_each_independent_sample :
  Forall (λ request, ∃ m,
            Samples.store_of_two (PyStr "ping") (PyStr "pong") !! request
            = Some (Request {| request_message := PyStr m |}))
    [3%positive; 4%positive; 3%positive]
  ∧ ∃ results h',
      Check_each 1 2 [3%positive; 4%positive; 3%positive]
        (Samples.store_of_two (PyStr "ping") (PyStr "pong"))
      = Ok results h'
      ∧ NoDup results
      ∧ Forall (λ result,
                  Samples.store_of_two (PyStr "ping") (PyStr "pong") !! result
                  = None) results
      ∧ Forall2 (λ request result, ∃ m,
                   Samples.store_of_two (PyStr "ping") (PyStr "pong") !! request
                   = Some (Request {| request_message := PyStr m |})
                   ∧ h' !! result = Some (Response (greeting m)))
          [3%positive; 4%positive; 3%positive] results
      ∧ ∀ l, is_Some (Samples.store_of_two (PyStr "ping") (PyStr "pong") !! l)
             → h' !! l
               = Samples.store_of_two (PyStr "ping") (PyStr "pong") !! l.
Proof.
  assert (H : Forall (λ request, ∃ m,
            Samples.store_of_two (PyStr "ping") (PyStr "pong") !! request
            = Some (Request {| request_message := PyStr m |}))
    [3%positive; 4%positive; 3%positive]).
  { repeat constructor; eexists; reflexivity. }
  split; [exact H|].
  exact (Check_each_independent
           (Samples.store_of_two (PyStr "ping") (PyStr "pong")) 1 2
           [3%positive; 4%positive; 3%positive] H).
Defined.

(** X3.  The response echoes the request: what follows the 22 characters of
    the fixed prefix in [response_message] is the message of the request,
    so that requests with different messages get different responses. *)
Theorem Check_echo (h : gmap loc pyobj) (self request target : loc)
    (m : string) :
  h !! request = Some (Request {| request_message := PyStr m |}) →
  ∃ result h' response,
    Check self request target h = Ok result h'
    ∧ h' !! result = Some (Response response)
    ∧ PosixPath.slice_from 22 (response_message response) = m
    ∧ ∀ m', response_message response = response_message (greeting m') →
            m' = m.
Proof.
  intros Hreq. eexists _, _, _. split; [by apply Check_run|].
  split; [apply lookup_insert_eq|]. split; [reflexivity|].
  cbn. intros m' E.
  by apply (f_equal (PosixPath.slice_from 22)) in E.
Qed.

Lemma Check_echo_ping :
  Samples.store_of (PyStr "ping") !! 3%positive
  = Some (Request {| request_message := PyStr "ping" |})
  ∧ ∃ result h' response,
      Check 1 3 2 (Samples.store_of (PyStr "ping")) = Ok result h'
      ∧ h' !! result = Some (Response response)
      ∧ PosixPath.slice_from 22 (response_message response) = "ping"
      ∧ ∀ m', response_message response = response_message (greeting m') →
              m' = "ping".
Proof.
  split; [reflexivity|].
  exact (Check_echo (Samples.store_of (PyStr "ping")) 1 3 2 "ping" eq_refl).
Defined.

End CheckOutcomes.

(* ===================================================================== *)
(** ** More on the wrapper: the loop as a whole, calls in sequence *)
(* ===================================================================== *)

Section WrapperLoop.

Import GrpcProtoc.

Lemma with_path_keeps (a e : string) (path : list string) :
  e ∈ path → e ∈ with_path a path.
Proof. unfold with_path. case_bool_decide; set_solver. Qed.

Lemma with_path_present (a : string) (path : list string) :
  a ∈ path → with_path a path = path.
Proof. intros H. unfold with_path. by rewrite bool_decide_eq_true_2. Qed.

Lemma with_path_absent (a : string) (path : list string) :
  a ∉ path → with_path a path = path ++ [a].
Proof. intros H. unfold with_path. by rewrite bool_decide_eq_false_2. Qed.

Lemma with_path_swap_eq (a b : string) (path : list string) :
  a ∈ path ∨ b ∈ path ∨ a = b →
  with_path a (with_path b path) = with_path b (with_path a path).
Proof.
  intros [Ha|[Hb|<-]]; [| |done].
  - rewrite (with_path_present a path Ha).
    apply with_path_present. by apply with_path_keeps.
  - rewrite (with_path_present b path Hb). symmetry.
    apply with_path_present. by apply with_path_keeps.
Qed.

Lemma with_path_swap (a b : string) (path : list string) :
  with_path a (with_path b path) ≡ₚ with_path b (with_path a path).
Proof.
  destruct (decide (a ∈ path)) as [Ha|Ha];
    [by rewrite with_path_swap_eq by auto|].
  destruct (decide (b ∈ path)) as [Hb|Hb];
    [by rewrite with_path_swap_eq by auto|].
  destruct (decide (a = b)) as [Hab|Hab];
    [by rewrite with_path_swap_eq by auto|].
  rewrite (with_path_absent b path Hb), (with_path_absent a path Ha).
  rewrite !with_path_absent.
  - rewrite <- !app_assoc. apply Permutation_app_head, Permutation_swap.
  - intros [?|?%list_elem_of_singleton]%elem_of_app; congruence.
  - intros [?|?%list_elem_of_singleton]%elem_of_app; congruence.
Qed.

Variable abspath : string → string.
Variable protoc_main : list string → pystate → call_result.

#[local] Set Default Proof Using "Type".

Lemma scanned_keeps (argv path : list string) (e : string) :
  e ∈ path → e ∈ scanned abspath argv path.
Proof.
  unfold scanned. revert path.
  induction argv as [|item argv IH]; intros path He; cbn [fold_left]; [done|].
  apply IH. destruct (PosixPath.startswith "-I" item); [|done].
  by apply with_path_keeps.
Qed.

Lemma scanned_complete (argv path : list string) (P : string) :
  "-I" +:+ P ∈ argv → abspath P ∈ scanned abspath argv path.
Proof.
  revert path. induction argv as [|item argv IH]; intros path Hin.
  - by apply elem_of_nil in Hin.
  - apply elem_of_cons in Hin as [<-|Hin].
    + unfold scanned. cbn [fold_left].
      rewrite startswith_marker, slice_after_marker.
      apply scanned_keeps, with_path_elem.
    + unfold scanned. cbn [fold_left]. by apply IH.
Qed.

(** A list that holds the absolute form of every marked argument is left
    alone by the loop. *)
Lemma scanned_saturated (argv path : list string) :
  (∀ P, "-I" +:+ P ∈ argv → abspath P ∈ path) →
  scanned abspath argv path = path.
Proof.
  unfold scanned. induction argv as [|item argv IH]; intros Hsat;
    cbn [fold_left]; [done|].
  destruct (PosixPath.startswith "-I" item) eqn:Hitem.
  - rewrite with_path_present.
    + apply IH. intros P HP. apply Hsat. by right.
    + apply Hsat. rewrite <- (startswith_marker_inv item Hitem). by left.
  - apply IH. intros P HP. apply Hsat. by right.
Qed.

(** What the loop adds is new to the list and has no repetitions. *)
Lemma scanned_added_new (argv path : list string) :
  ∃ added,
    scanned abspath argv path = path ++ added
    ∧ NoDup added
    ∧ ∀ e, e ∈ added → e ∉ path.
Proof.
  unfold scanned. revert path.
  induction argv as [|item argv IH]; intros path; cbn [fold_left].
  - exists []. split; [by rewrite app_nil_r|].
    split; [constructor|]. by intros e ?%elem_of_nil.
  - destruct (PosixPath.startswith "-I" item); [|apply IH].
    set (a := abspath (PosixPath.slice_from 2 item)).
    destruct (decide (a ∈ path)) as [Ha|Ha].
    + rewrite (with_path_present a path Ha). apply IH.
    + rewrite (with_path_absent a path Ha).
      destruct (IH (path ++ [a])) as (added & -> & Hnd & Hnew).
      exists (a :: added). split; [by rewrite <- app_assoc|]. split.
      * constructor; [|done]. intros Hin. apply (Hnew a Hin).
        apply elem_of_app. right. by left.
      * intros e [->|Hin]%elem_of_cons; [done|].
        intros He. apply (Hnew e Hin). apply elem_of_app. by left.
Qed.

(** When the only marked entries are bare markers, the loop does what one
    call of [add_to_python_path] on the empty string does. *)
Lemma scanned_bare_saturated (argv path : list string) :
  Forall (λ item, PosixPath.startswith "-I" item = true → item = "-I") argv →
  abspath "" ∈ path →
  scanned abspath argv path = path.
Proof.
  intros Hall Hp. apply scanned_saturated. intros P HP.
  rewrite Forall_forall in Hall.
  pose proof (Hall _ HP (startswith_marker P)) as E.
  destruct P; [done|discriminate].
Qed.

Lemma scanned_bare_marker (argv path : list string) :
  Forall (λ item, PosixPath.startswith "-I" item = true → item = "-I") argv →
  "-I" ∈ argv →
  scanned abspath argv path = with_path (abspath "") path.
Proof.
  intros Hall. revert path.
  induction Hall as [|item argv Hitem Hall IH]; intros path Hin.
  - by apply elem_of_nil in Hin.
  - unfold scanned. cbn [fold_left].
    fold (scanned abspath argv).
    destruct (PosixPath.startswith "-I" item) eqn:Hs.
    + rewrite (Hitem eq_refl). cbn [PosixPath.slice_from].
      apply (scanned_bare_saturated _ _ Hall), with_path_elem.
    + apply elem_of_cons in Hin as [<-|Hin]; [by vm_compute in Hs|].
      by apply IH.
Qed.

(** X4.  When the compiler is called, [sys.path] holds the absolute form of
    every argument of [sys.argv] that carries the marker, and every entry
    it had before. *)
Theorem main_adds_every_marked (st : pystate) (path : list string) :
  search_path st = Some path →
  ∃ r path',
    main abspath protoc_main st = Some r
    ∧ search_path (state_at_call r) = Some path'
    ∧ (∀ P, "-I" +:+ P ∈ sys_argv st → abspath P ∈ path')
    ∧ (∀ e, e ∈ path → e ∈ path').
Proof.
  intros Hp. eexists _, _. split; [by apply main_run|].
  cbn [state_at_call]. split; [apply search_path_store|].
  split; [intros P; apply scanned_complete|intros e; apply scanned_keeps].
Qed.

(** X6.  The loop is idempotent: run once more over the same arguments, it
    leaves the state as the first run left it. *)
Theorem scan_again_changes_nothing (argv : list string) (st : pystate)
    (path : list string) :
  search_path st = Some path →
  ∃ st1,
    for_each argv (scan_item abspath) st = Some (tt, st1)
    ∧ for_each argv (scan_item abspath) st1 = Some (tt, st1).
Proof.
  intros Hp. eexists. split; [by apply for_each_scan_run|].
  rewrite (for_each_scan_run _ _ _ _ (search_path_store _ _)).
  cbn [sys_path store]. rewrite store_store, scanned_saturated; [done|].
  intros P. apply scanned_complete.
Qed.

(** X7.  The loop goes through [sys.argv[0]] too: a program name that
    starts with ["-I"] puts the absolute form of the rest of it on
    [sys.path], although the name is not among the arguments that the
    compiler receives. *)
Theorem program_name_is_scanned (P : string) (args : list string)
    (st : pystate) (path : list string) :
  search_path st = Some path →
  sys_argv st = ("-I" +:+ P) :: args →
  Forall (λ item, PosixPath.startswith "-I" item = false) args →
  abspath P ∉ path →
  ∃ r,
    main abspath protoc_main st = Some r
    ∧ search_path (state_at_call r) = Some (path ++ [abspath P])
    ∧ protoc_args r = args.
Proof.
  intros Hp Hargv Hargs Hnew. eexists. split; [by apply main_run|].
  cbn [state_at_call protoc_args]. rewrite search_path_store, Hargv.
  split; [|done]. unfold scanned at 1. cbn [fold_left].
  rewrite startswith_marker, slice_after_marker.
  fold (scanned abspath args (with_path (abspath P) path)).
  rewrite (scanned_no_marker _ _ _ Hargs). unfold with_path.
  by rewrite bool_decide_eq_false_2.
Qed.

(** X8.  Two arguments with the same absolute form count as one: after a
    call with one of them, a call with the other changes nothing. *)
Theorem add_to_python_path_same_absolute (a b : string) (st : pystate)
    (path : list string) :
  search_path st = Some path →
  abspath a = abspath b →
  ∃ st1,
    add_to_python_path abspath a st = Some (sys_path st, st1)
    ∧ add_to_python_path abspath b st1 = Some (sys_path st1, st1).
Proof.
  intros Hp Hab. eexists. split; [by apply add_to_python_path_run|].
  rewrite (add_to_python_path_run _ _ _ _ (search_path_store _ _)).
  cbn [sys_path store]. by rewrite store_store, <- Hab, with_path_again.
Qed.

(** X9.  Calls with two arguments in the one order and in the other leave
    the same entries in [sys.path], up to the order of the entries that
    were added. *)
Theorem add_to_python_path_order (a b : string) (st : pystate)
    (path : list string) :
  search_path st = Some path →
  ∃ st_ab st_ba path_ab path_ba,
    (add_to_python_path abspath a;; add_to_python_path abspath b) st
    = Some (sys_path st, st_ab)
    ∧ (add_to_python_path abspath b;; add_to_python_path abspath a) st
      = Some (sys_path st, st_ba)
    ∧ search_path st_ab = Some path_ab
    ∧ search_path st_ba = Some path_ba
    ∧ path_ab ≡ₚ path_ba
    ∧ (abspath a ∈ path ∨ abspath b ∈ path ∨ abspath a = abspath b →
       st_ab = st_ba).
Proof.
  intros Hp.
  exists (store (sys_path st)
            (with_path (abspath b) (with_path (abspath a) path)) st),
    (store (sys_path st)
       (with_path (abspath a) (with_path (abspath b) path)) st).
  eexists _, _.
  split.
  { unfold mbind, Py_MBind, py_bind.
    rewrite (add_to_python_path_run _ _ _ _ Hp).
    rewrite (add_to_python_path_run _ _ _ _ (search_path_store _ _)).
    cbn [sys_path store]. by rewrite store_store. }
  split.
  { unfold mbind, Py_MBind, py_bind.
    rewrite (add_to_python_path_run _ _ _ _ Hp).
    rewrite (add_to_python_path_run _ _ _ _ (search_path_store _ _)).
    cbn [sys_path store]. by rewrite store_store. }
  split; [apply search_path_store|]. split; [apply search_path_store|].
  split; [apply with_path_swap|].
  intros Hcase. f_equal. symmetry. by apply with_path_swap_eq.
Qed.

End WrapperLoop.

(* ===================================================================== *)
(** ** More on the wrapper on POSIX paths *)
(* ===================================================================== *)

Section WrapperOnPosixPaths.

Import PosixPath GrpcProtoc.

Lemma append_assoc (a b c : string) : (a +:+ b) +:+ c = a +:+ b +:+ c.
Proof. induction a as [|x a IH]; [done|]. by rewrite !append_cons, IH. Qed.

Lemma append_nonempty_r (a p : string) : p ≠ "" → a +:+ p ≠ "".
Proof. by destruct a, p. Qed.

Lemma last_char_append (a p : string) :
  p ≠ "" → last_char (a +:+ p) = last_char p.
Proof.
  intros Hp. induction a as [|x a IH]; [done|].
  rewrite append_cons. cbn [last_char]. rewrite IH.
  destruct p as [|y p]; [done|]. cbn [last_char]. by destruct (last_char p).
Qed.

Lemma endswith_sep_append (a p : string) :
  p ≠ "" → endswith_sep (a +:+ p) = endswith_sep p.
Proof. intros Hp. unfold endswith_sep. by rewrite last_char_append. Qed.

Lemma isabs_trailing_sep (p : string) :
  p ≠ "" → isabs (p +:+ "/") = isabs p.
Proof.
  destruct p as [|c p]; [done|]. intros _. unfold isabs.
  by rewrite append_cons, !startswith_sep_cons, !startswith_empty.
Qed.

Lemma join_trailing_sep (cwd p : string) :
  p ≠ "" → isabs p = false →
  join cwd (p +:+ "/") = join cwd p +:+ "/"
  ∧ join cwd p ≠ "" ∧ endswith_sep (join cwd p) = endswith_sep p.
Proof.
  intros Hp Habs. unfold join. fold (isabs (p +:+ "/")). fold (isabs p).
  rewrite (isabs_trailing_sep p Hp), Habs.
  destruct (_ || _).
  - rewrite append_assoc. split; [done|].
    split; [by apply append_nonempty_r|by apply endswith_sep_append].
  - rewrite !append_assoc. split; [done|].
    split; [by apply append_nonempty_r, append_nonempty_r|].
    rewrite endswith_sep_append; [by apply endswith_sep_append|].
    by apply append_nonempty_r.
Qed.

(** A separator at the end of a path does not change its absolute form. *)
Lemma abspath_trailing_sep (cwd p : string) :
  p ≠ "" → endswith_sep p = false →
  abspath cwd (p +:+ "/") = abspath cwd p.
Proof.
  intros Hp He. unfold abspath. rewrite (isabs_trailing_sep p Hp).
  destruct (isabs p) eqn:Habs.
  - by apply normpath_trailing_sep.
  - destruct (join_trailing_sep cwd p Hp Habs) as (-> & Hne & Hj).
    apply normpath_trailing_sep; [done|]. by rewrite Hj.
Qed.

(** C8.  A bare ["-I"] among the arguments: the turn of the loop on it
    calls [add_to_python_path] on the empty string, whose absolute form is
    the working directory; when the script calls the compiler the working
    directory is on [sys.path], added after the former entries exactly when
    it was not among them, and when no other argument carries the marker it
    is all that was added. *)
Theorem bare_marker_adds_cwd (cwd : string)
    (protoc_main : list string → pystate → call_result)
    (st : pystate) (path : list string) :
  normpath cwd = cwd →
  search_path st = Some path →
  "-I" ∈ sys_argv st →
  (scan_item (abspath cwd) "-I"
   = (add_to_python_path (abspath cwd) "";; py_ret tt))
  ∧ abspath cwd "" = cwd
  ∧ ∃ r added,
      main (abspath cwd) protoc_main st = Some r
      ∧ search_path (state_at_call r) = Some (path ++ added)
      ∧ NoDup added
      ∧ (cwd ∈ added ↔ cwd ∉ path)
      ∧ (Forall (λ item, startswith "-I" item = true → item = "-I")
           (sys_argv st) →
         added = if bool_decide (cwd ∈ path) then [] else [cwd]).
Proof.
  intros Hcwd Hp Hin. split; [reflexivity|].
  pose proof (abspath_empty cwd Hcwd) as Hempty. split; [done|].
  destruct (scanned_added_new (abspath cwd) (sys_argv st) path)
    as (added & E & Hnd & Hnew).
  eexists _, added. split; [by apply main_run|].
  cbn [state_at_call]. rewrite search_path_store, E.
  split; [done|]. split; [done|]. split.
  - split; [apply Hnew|]. intros Hout.
    pose proof (scanned_complete (abspath cwd) (sys_argv st) path "" Hin)
      as Hthere.
    rewrite Hempty, E in Hthere.
    by apply elem_of_app in Hthere as [?|?].
  - intros Honly.
    rewrite (scanned_bare_marker _ _ _ Honly Hin), Hempty in E.
    unfold with_path in E. case_bool_decide.
    + symmetry. apply (app_inv_head path). by rewrite app_nil_r.
    + symmetry. by apply (app_inv_head path).
Qed.

Lemma bare_marker_adds_cwd_sample :
  normpath Samples.cwd = Samples.cwd
  ∧ search_path (Samples.state_of ["/usr/lib/python3"]
                   ["grpc_protoc.py"; "-I"; "a.proto"])
    = Some ["/usr/lib/python3"]
  ∧ "-I" ∈ ["grpc_protoc.py"; "-I"; "a.proto"]
  ∧ ((scan_item (abspath Samples.cwd) "-I"
      = (add_to_python_path (abspath Samples.cwd) "";; py_ret tt))
     ∧ abspath Samples.cwd "" = Samples.cwd
     ∧ ∃ r added,
         main (abspath Samples.cwd) Samples.failing_protoc
           (Samples.state_of ["/usr/lib/python3"]
              ["grpc_protoc.py"; "-I"; "a.proto"])
         = Some r
         ∧ search_path (state_at_call r)
           = Some (["/usr/lib/python3"] ++ added)
         ∧ NoDup added
         ∧ (Samples.cwd ∈ added ↔ Samples.cwd ∉ ["/usr/lib/python3"])
         ∧ (Forall (λ item, startswith "-I" item = true → item = "-I")
              ["grpc_protoc.py"; "-I"; "a.proto"] →
            added = if bool_decide (Samples.cwd ∈ ["/usr/lib/python3"])
                    then [] else [Samples.cwd])).
Proof.
  assert (H : "-I" ∈ ["grpc_protoc.py"; "-I"; "a.proto"])
    by (apply (bool_decide_unpack _); vm_compute; exact I).
  split; [reflexivity|]. split; [reflexivity|]. split; [exact H|].
  exact (bare_marker_adds_cwd Samples.cwd Samples.failing_protoc
           (Samples.state_of ["/usr/lib/python3"]
              ["grpc_protoc.py"; "-I"; "a.proto"])
           ["/usr/lib/python3"] eq_refl eq_refl H).
Defined.

(** X10.  With an absolute working directory, every entry that the script
    adds to [sys.path] is an absolute path, and one that [abspath] maps to
    itself. *)
Theorem main_adds_absolute_entries (cwd : string)
    (protoc_main : list string → pystate → call_result)
    (st : pystate) (path : list string) :
  isabs cwd = true →
  search_path st = Some path →
  ∃ r added,
    main (abspath cwd) protoc_main st = Some r
    ∧ search_path (state_at_call r) = Some (path ++ added)
    ∧ Forall (λ e, isabs e = true ∧ abspath cwd e = e) added.
Proof.
  intros Hcwd Hp.
  destruct (scanned_adds_absolute (abspath cwd) (sys_argv st) path)
    as (added & E & Hadded).
  eexists _, added. split; [by apply main_run|].
  cbn [state_at_call]. rewrite search_path_store, E. split; [done|].
  apply Forall_forall. intros e (P & _ & ->)%Hadded.
  by apply abspath_isabs.
Qed.

Lemma main_adds_absolute_entries_sample :
  isabs Samples.cwd = true
  ∧ search_path (Samples.state_of ["lib"]
                   ["grpc_protoc.py"; "-Ifoo/../bar"; "-I."; "a.proto"])
    = Some ["lib"]
  ∧ ∃ r added,
      main (abspath Samples.cwd) Samples.failing_protoc
        (Samples.state_of ["lib"]
           ["grpc_protoc.py"; "-Ifoo/../bar"; "-I."; "a.proto"])
      = Some r
      ∧ search_path (state_at_call r) = Some (["lib"] ++ added)
      ∧ Forall (λ e, isabs e = true ∧ abspath Samples.cwd e = e) added.
Proof.
  split; [reflexivity|]. split; [reflexivity|].
  exact (main_adds_absolute_entries Samples.cwd Samples.failing_protoc
           (Samples.state_of ["lib"]
              ["grpc_protoc.py"; "-Ifoo/../bar"; "-I."; "a.proto"])
           ["lib"] eq_refl eq_refl).
Defined.

(** X11.  A separator at the end of an include path makes no second
    entry: after a call of [add_to_python_path] with [p], a call with [p]
    followed by ["/"] changes nothing. *)
Theorem add_to_python_path_trailing_sep (cwd p : string) (st : pystate)
    (path : list string) :
  p ≠ "" →
  endswith_sep p = false →
  search_path st = Some path →
  ∃ st1,
    add_to_python_path (abspath cwd) p st = Some (sys_path st, st1)
    ∧ add_to_python_path (abspath cwd) (p +:+ "/") st1
      = Some (sys_path st1, st1).
Proof.
  intros Hne He Hp. eexists. split; [by apply add_to_python_path_run|].
  rewrite (add_to_python_path_run _ _ _ _ (search_path_store _ _)).
  cbn [sys_path store].
  by rewrite store_store, (abspath_trailing_sep cwd p Hne He), with_path_again.
Qed.

Lemma add_to_python_path_trailing_sep_sample :
  "foo/bar" ≠ ""
  ∧ endswith_sep "foo/bar" = false
  ∧ search_path (Samples.state_of ["/usr/lib/python3"] ["grpc_protoc.py"])
    = Some ["/usr/lib/python3"]
  ∧ ∃ st1,
      add_to_python_path (abspath Samples.cwd) "foo/bar"
        (Samples.state_of ["/usr/lib/python3"] ["grpc_protoc.py"])
      = Some (1%positive, st1)
      ∧ add_to_python_path (abspath Samples.cwd) "foo/bar/" st1
        = Some (sys_path st1, st1).
Proof.
  assert (H : "foo/bar" ≠ "") by discriminate.
  split; [exact H|]. split; [reflexivity|]. split; [reflexivity|].
  exact (add_to_python_path_trailing_sep Samples.cwd "foo/bar"
           (Samples.state_of ["/usr/lib/python3"] ["grpc_protoc.py"])
           ["/usr/lib/python3"] H eq_refl eq_refl).
Defined.

(** The absolute forms differ once the path is the root: ["-I/"] and
    ["-I//"] make two entries. *)
Example root_and_two_slashes :
  abspath Samples.cwd "/" = "/" ∧ abspath Samples.cwd "//" = "//".
Proof. split; reflexivity. Qed.

(** *** Sample runs *)

Lemma main_search_path_sample :
  search_path (Samples.state_of ["/usr/lib/python3"]
                 ["grpc_protoc.py"; "-Ifoo"; "-Ibar"; "-Ifoo"; "a.proto"])
  = Some ["/usr/lib/python3"]
  ∧ ∃ r added,
      main (abspath Samples.cwd) Samples.failing_protoc
        (Samples.state_of ["/usr/lib/python3"]
           ["grpc_protoc.py"; "-Ifoo"; "-Ibar"; "-Ifoo"; "a.proto"])
      = Some r
      ∧ search_path (state_at_call r) = Some (["/usr/lib/python3"] ++ added)
      ∧ (∀ e, e ∈ added →
              ∃ P, "-I" +:+ P
                   ∈ ["grpc_protoc.py"; "-Ifoo"; "-Ibar"; "-Ifoo"; "a.proto"]
                   ∧ e = abspath Samples.cwd P)
      ∧ (NoDup ["/usr/lib/python3"] → NoDup (["/usr/lib/python3"] ++ added)).
Proof.
  split; [reflexivity|].
  exact (main_search_path (abspath Samples.cwd) Samples.failing_protoc
           (Samples.state_of ["/usr/lib/python3"]
              ["grpc_protoc.py"; "-Ifoo"; "-Ibar"; "-Ifoo"; "a.proto"])
           ["/usr/lib/python3"] eq_refl).
Defined.

Lemma main_adds_every_marked_sample :
  search_path (Samples.state_of ["/usr/lib/python3"]
                 ["grpc_protoc.py"; "-Ifoo"; "-Ibar"; "-Ifoo"; "a.proto"])
  = Some ["/usr/lib/python3"]
  ∧ ∃ r path',
      main (abspath Samples.cwd) Samples.failing_protoc
        (Samples.state_of ["/usr/lib/python3"]
           ["grpc_protoc.py"; "-Ifoo"; "-Ibar"; "-Ifoo"; "a.proto"])
      = Some r
      ∧ search_path (state_at_call r) = Some path'
      ∧ (∀ P, "-I" +:+ P
              ∈ ["grpc_protoc.py"; "-Ifoo"; "-Ibar"; "-Ifoo"; "a.proto"]
              → abspath Samples.cwd P ∈ path')
      ∧ (∀ e, e ∈ ["/usr/lib/python3"] → e ∈ path').
Proof.
  split; [reflexivity|].
  exact (main_adds_every_marked (abspath Samples.cwd) Samples.failing_protoc
           (Samples.state_of ["/usr/lib/python3"]
              ["grpc_protoc.py"; "-Ifoo"; "-Ibar"; "-Ifoo"; "a.proto"])
           ["/usr/lib/python3"] eq_refl).
Defined.

Lemma scan_again_changes_nothing_sample :
  search_path (Samples.state_of ["/usr/lib/python3"] ["grpc_protoc.py"])
  = Some ["/usr/lib/python3"]
  ∧ ∃ st1,
      for_each ["grpc_protoc.py"; "-Ifoo"; "-Ibar"; "-Ifoo"]
        (scan_item (abspath Samples.cwd))
        (Samples.state_of ["/usr/lib/python3"] ["grpc_protoc.py"])
      = Some (tt, st1)
      ∧ for_each ["grpc_protoc.py"; "-Ifoo"; "-Ibar"; "-Ifoo"]
          (scan_item (abspath Samples.cwd)) st1
        = Some (tt, st1).
Proof.
  split; [reflexivity|].
  exact (scan_again_changes_nothing (abspath Samples.cwd)
           ["grpc_protoc.py"; "-Ifoo"; "-Ibar"; "-Ifoo"]
           (Samples.state_of ["/usr/lib/python3"] ["grpc_protoc.py"])
           ["/usr/lib/python3"] eq_refl).
Defined.

Lemma program_name_is_scanned_sample :
  search_path (Samples.state_of ["/usr/lib/python3"]
                 ["-Iq/grpc_protoc.py"; "a.proto"])
  = Some ["/usr/lib/python3"]
  ∧ ["-Iq/grpc_protoc.py"; "a.proto"] = ("-I" +:+ "q/grpc_protoc.py") :: ["a.proto"]
  ∧ Forall (λ item, startswith "-I" item = false) ["a.proto"]
  ∧ (abspath Samples.cwd "q/grpc_protoc.py" ∉ ["/usr/lib/python3"])
  ∧ ∃ r,
      main (abspath Samples.cwd) Samples.failing_protoc
        (Samples.state_of ["/usr/lib/python3"]
           ["-Iq/grpc_protoc.py"; "a.proto"])
      = Some r
      ∧ search_path (state_at_call r)
        = Some (["/usr/lib/python3"]
                  ++ [abspath Samples.cwd "q/grpc_protoc.py"])
      ∧ protoc_args r = ["a.proto"].
Proof.
  assert (H1 : Forall (λ item, startswith "-I" item = false) ["a.proto"])
    by (repeat constructor).
  assert (H2 : abspath Samples.cwd "q/grpc_protoc.py" ∉ ["/usr/lib/python3"])
    by (apply (bool_decide_unpack _); vm_compute; exact I).
  split; [reflexivity|]. split; [reflexivity|]. split; [exact H1|].
  split; [exact H2|].
  exact (program_name_is_scanned (abspath Samples.cwd) Samples.failing_protoc
           "q/grpc_protoc.py" ["a.proto"]
           (Samples.state_of ["/usr/lib/python3"]
              ["-Iq/grpc_protoc.py"; "a.proto"])
           ["/usr/lib/python3"] eq_refl eq_refl H1 H2).
Defined.

Lemma add_to_python_path_same_absolute_sample :
  search_path (Samples.state_of ["/usr/lib/python3"] ["grpc_protoc.py"])
  = Some ["/usr/lib/python3"]
  ∧ abspath Samples.cwd "lib" = abspath Samples.cwd "x/../lib"
  ∧ ∃ st1,
      add_to_python_path (abspath Samples.cwd) "lib"
        (Samples.state_of ["/usr/lib/python3"] ["grpc_protoc.py"])
      = Some (1%positive, st1)
      ∧ add_to_python_path (abspath Samples.cwd) "x/../lib" st1
        = Some (sys_path st1, st1).
Proof.
  split; [reflexivity|]. split; [reflexivity|].
  exact (add_to_python_path_same_absolute (abspath Samples.cwd)
           "lib" "x/../lib"
           (Samples.state_of ["/usr/lib/python3"] ["grpc_protoc.py"])
           ["/usr/lib/python3"] eq_refl eq_refl).
Defined.

Lemma add_to_python_path_order_sample :
  search_path (Samples.state_of ["/usr/lib/python3"] ["grpc_protoc.py"])
  = Some ["/usr/lib/python3"]
  ∧ ∃ st_ab st_ba path_ab path_ba,
      (add_to_python_path (abspath Samples.cwd) "foo";;
       add_to_python_path (abspath Samples.cwd) "bar")
        (Samples.state_of ["/usr/lib/python3"] ["grpc_protoc.py"])
      = Some (1%positive, st_ab)
      ∧ (add_to_python_path (abspath Samples.cwd) "bar";;
         add_to_python_path (abspath Samples.cwd) "foo")
          (Samples.state_of ["/usr/lib/python3"] ["grpc_protoc.py"])
        = Some (1%positive, st_ba)
      ∧ search_path st_ab = Some path_ab
      ∧ search_path st_ba = Some path_ba
      ∧ path_ab ≡ₚ path_ba
      ∧ (abspath Samples.cwd "foo" ∈ ["/usr/lib/python3"]
         ∨ abspath Samples.cwd "bar" ∈ ["/usr/lib/python3"]
         ∨ abspath Samples.cwd "foo" = abspath Samples.cwd "bar" →
         st_ab = st_ba).
Proof.
  split; [reflexivity|].
  exact (add_to_python_path_order (abspath Samples.cwd) "foo" "bar"
           (Samples.state_of ["/usr/lib/python3"] ["grpc_protoc.py"])
           ["/usr/lib/python3"] eq_refl).
Defined.

End WrapperOnPosixPaths.
